(** * tredis/sets.py: the Redis set commands mixin

    A shallow embedding of [SetsMixin]: the command vectors each method
    builds, the response normalizers ([_eval_response], [_format_response]),
    the [on_response] continuations and the per-call choice between the
    pipeline accumulator and the executor. *)

From Stdlib Require Import ZArith List Bool Ascii String Lia.
Import ListNotations.

Local Open Scope string_scope.
Local Open Scope list_scope.
Local Open Scope Z_scope.

#[local] Set Warnings "-register-all".

(** ** Python values *)

(** A byte string ([bytes]); the tokens of a command are byte strings. *)
Definition bytes := string.

(** The Python objects that travel through this module: the replies the
    Redis protocol decoder hands over (integer, bulk string, array, nil)
    and what the normalizers build from them ([bool], [tuple]). *)
Inductive value : Type :=
| VNone
| VBool (b : bool)
| VInt (z : Z)
| VBytes (s : bytes)
| VList (l : list value)
| VTuple (l : list value).

(** Exceptions: the built-in ones the normalizers can raise, and the
    errors the executor reports (connection loss, server error reply). *)
Inductive exn : Type :=
| TypeError
| IndexError
| ValueError
| RedisError (msg : string).

(** What a Python call does: it returns a value or raises. *)
Inductive outcome (A : Type) : Type :=
| Returned (a : A)
| Raised (e : exn).
Arguments Returned {A} a.
Arguments Raised {A} e.

(** [bool] is a subclass of [int]: [True] counts as 1, [False] as 0. *)
Definition int_of_bool (b : bool) : Z := if b then 1 else 0.

(** [value == n] for an [int] n: numbers compare by value, every other
    object is unequal to an integer. *)
Definition py_eq_int (v : value) (n : Z) : bool :=
  match v with
  | VInt z => z =? n
  | VBool b => int_of_bool b =? n
  | _ => false
  end.

(** [len(members)] of the tuple of positional arguments. *)
Definition len {A : Type} (l : list A) : Z := Z.of_nat (List.length l).

(** [v[i]] for a constant index [i >= 0]; indexing a byte string gives
    the byte as an integer. *)
Definition getitem (v : value) (i : nat) : outcome value :=
  match v with
  | VList l | VTuple l =>
      match nth_error l i with
      | Some x => Returned x
      | None => Raised IndexError
      end
  | VBytes s =>
      match String.get i s with
      | Some a => Returned (VInt (Z.of_nat (nat_of_ascii a)))
      | None => Raised IndexError
      end
  | _ => Raised TypeError
  end.

(** ** [ascii(n).encode('ascii')]: the base-ten text of an integer *)

Definition digit_char (d : Z) : ascii := ascii_of_nat (48 + Z.to_nat d).

(** The digits of [n >= 0], most significant first, in front of [acc].
    [fuel] bounds the number of digits written. *)
Fixpoint digits_onto (fuel : nat) (n : Z) (acc : string) : string :=
  match fuel with
  | O => acc
  | S fuel' =>
      let acc' := String (digit_char (n mod 10)) acc in
      if n <? 10 then acc' else digits_onto fuel' (n / 10) acc'
  end.

Definition digits_of (n : Z) : string :=
  digits_onto (S (Z.to_nat (Z.log2 n))) n "".

(** [ascii(n).encode('ascii')] for an [int]: [repr] of an integer is its
    decimal text, with a leading minus sign below zero. *)
Definition ascii_int (n : Z) : bytes :=
  if n <? 0 then String "-" (digits_of (- n)) else digits_of n.

(** ** [int(b)]: parsing a decimal byte string *)

Definition digit_value (a : ascii) : option Z :=
  let n := nat_of_ascii a in
  if ((48 <=? n) && (n <=? 57))%nat then Some (Z.of_nat (n - 48)) else None.

(** The characters [int] strips: space, tab, line feed, vertical tab,
    form feed, carriage return. *)
Definition is_space (a : ascii) : bool :=
  let n := nat_of_ascii a in
  ((n =? 32) || ((9 <=? n) && (n <=? 13)))%nat.

Fixpoint all_space (s : string) : bool :=
  match s with
  | EmptyString => true
  | String a s' => is_space a && all_space s'
  end.

Fixpoint lstrip (s : string) : string :=
  match s with
  | EmptyString => EmptyString
  | String a s' => if is_space a then lstrip s' else s
  end.

(** Digits after the first one, a single underscore allowed between two
    digits, then nothing but trailing blanks. *)
Fixpoint more_digits (acc : Z) (s : string) : option Z :=
  match s with
  | EmptyString => Some acc
  | String a s' =>
      match digit_value a with
      | Some d => more_digits (10 * acc + d) s'
      | None =>
          if Ascii.eqb a "_" then
            match s' with
            | String b _ =>
                match digit_value b with
                | Some _ => more_digits acc s'
                | None => None
                end
            | EmptyString => None
            end
          else if all_space s then Some acc else None
      end
  end.

Definition unsigned_literal (s : string) : option Z :=
  match s with
  | EmptyString => None
  | String a s' =>
      match digit_value a with
      | Some d => more_digits d s'
      | None => None
      end
  end.

Definition signed_literal (s : string) : option Z :=
  match s with
  | String "+"%char s' => unsigned_literal s'
  | String "-"%char s' => option_map Z.opp (unsigned_literal s')
  | _ => unsigned_literal s
  end.

(** [int(s)] for a byte string, as Python 3.6 and later read it:
    optional blanks, an optional sign, one or more decimal digits with
    single underscores allowed between digits, optional blanks; anything
    else is a [ValueError]. *)
Definition int_of_bytes (s : bytes) : outcome Z :=
  match signed_literal (lstrip s) with
  | Some z => Returned z
  | None => Raised ValueError
  end.

(** The built-in [int(v)]. *)
Definition py_int (v : value) : outcome Z :=
  match v with
  | VInt z => Returned z
  | VBool b => Returned (int_of_bool b)
  | VBytes s => int_of_bytes s
  | _ => Raised TypeError
  end.

(** The value of a string of decimal digits, read left to right. *)
Fixpoint decimal_value (acc : Z) (s : string) : Z :=
  match s with
  | EmptyString => acc
  | String a s' =>
      match digit_value a with
      | Some d => decimal_value (10 * acc + d) s'
      | None => acc
      end
  end.

Fixpoint all_digits (s : string) : bool :=
  match s with
  | EmptyString => true
  | String a s' =>
      match digit_value a with
      | Some _ => all_digits s'
      | None => false
      end
  end.

(** ** State and errors *)

(** Python code that reads and updates a state [S] and may raise. *)
Definition SE (S A : Type) : Type := S -> outcome A * S.

Definition ret {S A : Type} (a : A) : SE S A := fun s => (Returned a, s).

Definition lift {S A : Type} (o : outcome A) : SE S A := fun s => (o, s).

Definition bind {S A B : Type} (m : SE S A) (k : A -> SE S B) : SE S B :=
  fun s =>
    match m s with
    | (Returned a, s') => k a s'
    | (Raised e, s') => (Raised e, s')
    end.

Notation "x <- m ;; k" := (bind m (fun x => k))
  (at level 61, m at next level, right associativity).
Notation "m ;; k" := (bind m (fun _ => k))
  (at level 61, right associativity).

(** ** Futures and continuations *)

(** A [tornado.concurrent.TracebackFuture]: not yet done, done with a
    result, or done with an exception. *)
Inductive future : Type :=
| Pending
| Result (v : value)
| Exception (e : exn).

(** The completed future the executor hands to a continuation. *)
Inductive response : Type :=
| Resolved (v : value)
| Failed (e : exn).

(** [response.exception()] *)
Definition exception (r : response) : option exn :=
  match r with
  | Resolved _ => None
  | Failed e => Some e
  end.

(** [response.result()]: the result, or the stored exception raised. *)
Definition result (r : response) : outcome value :=
  match r with
  | Resolved v => Returned v
  | Failed e => Raised e
  end.

(** A normalizer: the function a method attaches to its command. *)
Definition normalizer : Type := value -> outcome value.

(** What an [on_response] closure can touch: the future it captured. The
    field [calls] is a ghost log of the arguments the normalizer was
    invoked on, oldest first. *)
Record cell : Type := mkCell {
  fut : future;
  calls : list value
}.

Definition callback : Type := response -> SE cell unit.

(** [future.set_result(v)] *)
Definition set_result (v : value) : SE cell unit :=
  fun c => (Returned tt, mkCell (Result v) (calls c)).

(** [future.set_exception(exc)] *)
Definition set_exception (exc : exn) : SE cell unit :=
  fun c => (Returned tt, mkCell (Exception exc) (calls c)).

(** Calling the normalizer [f] on [v], logged in [calls]. *)
Definition call (f : normalizer) (v : value) : SE cell value :=
  fun c => (f v, mkCell (fut c) (calls c ++ [v])).

(** [future = concurrent.TracebackFuture()] *)
Definition TracebackFuture : cell := mkCell Pending [].

(** ** The client *)

(** A command vector. *)
Definition command : Type := list bytes.

(** The state a method of the mixin sees through [self]: the mode flag
    [self._pipeline], the pairs held by the pipeline accumulator and the
    commands handed to the executor, each in submission order. *)
Record client : Type := mkClient {
  _pipeline : bool;
  queued : list (command * option normalizer);
  submitted : list (command * option callback)
}.

(** What a method returns to its caller. *)
Inductive handle : Type :=
| Placeholder
| AsyncResult.

(** Reading [self._pipeline]. *)
Definition get_pipeline : SE client bool :=
  fun st => (Returned (_pipeline st), st).

(** Modelled from the spec: [self._pipeline_add(command, callback=None)]
    is defined in the client class, outside this file. The spec has it
    queue one (vector, normalizer) pair, keep submission order and return
    at once without resolving a result. *)
Definition _pipeline_add (cmd : command) (f : option normalizer)
  : SE client handle :=
  fun st =>
    (Returned Placeholder,
     mkClient (_pipeline st) (queued st ++ [(cmd, f)]) (submitted st)).

(** Modelled from the spec: [self._execute(command, callback=None)] is
    defined in the client class, outside this file. The spec has it
    submit one command whose asynchronous result resolves once, with a
    raw reply or with a failure; a continuation, when given, is called
    with that completed result. *)
Definition _execute (cmd : command) (cb : option callback)
  : SE client handle :=
  fun st =>
    (Returned AsyncResult,
     mkClient (_pipeline st) (queued st) (submitted st ++ [(cmd, cb)])).

(** Modelled from the spec: the executor completing the asynchronous
    result of a submitted command. With a continuation, the caller's
    fresh future is whatever the continuation makes of it; without one
    the caller holds the executor's own result, the raw reply or the
    failure. *)
Definition deliver (cb : option callback) (r : response)
  : outcome unit * cell :=
  match cb with
  | Some on_response => on_response r TracebackFuture
  | None =>
      (Returned tt,
       mkCell (match r with
               | Resolved v => Result v
               | Failed e => Exception e
               end) [])
  end.

(** Modelled from the spec: what a flushed pipeline makes of the raw
    reply at the position of a queued pair. A command queued without a
    normalizer is passed through. *)
Definition normalize (f : option normalizer) (v : value) : outcome value :=
  match f with
  | Some g => g v
  | None => Returned v
  end.

(** ** class SetsMixin *)

Module SetsMixin.

(** *** sadd *)

(** [_eval_response] of [sadd], closed over [members]. *)
Definition sadd_eval_response (members : list bytes) : normalizer :=
  fun value =>
    if py_eq_int value (len members) then Returned (VBool true)
    else Returned value.

(** [command = [b'SADD', key] + list(members)] *)
Definition sadd_command (key : bytes) (members : list bytes) : command :=
  ["SADD"; key] ++ members.

(** [on_response] of [sadd], closed over [future] and [members]. *)
Definition sadd_on_response (members : list bytes) : callback :=
  fun response =>
    match exception response with
    | Some exc => set_exception exc
    | None =>
        raw <- lift (result response) ;;
        v <- call (sadd_eval_response members) raw ;;
        set_result v
    end.

Definition sadd (key : bytes) (members : list bytes) : SE client handle :=
  let command := sadd_command key members in
  pipeline <- get_pipeline ;;
  if pipeline then
    _pipeline_add command (Some (sadd_eval_response members))
  else
    _execute command (Some (sadd_on_response members)) ;;
    ret AsyncResult.

(** *** scard *)

Definition scard_command (key : bytes) : command := ["SCARD"; key].

Definition scard (key : bytes) : SE client handle :=
  let command := scard_command key in
  pipeline <- get_pipeline ;;
  if pipeline then _pipeline_add command None
  else _execute command None.

(** *** sdiff, sdiffstore *)

Definition sdiff_command (keys : list bytes) : command := ["SDIFF"] ++ keys.

Definition sdiff (keys : list bytes) : SE client handle :=
  let command := sdiff_command keys in
  pipeline <- get_pipeline ;;
  if pipeline then _pipeline_add command None
  else _execute command None.

Definition sdiffstore_command (destination : bytes) (keys : list bytes)
  : command :=
  ["SDIFFSTORE"; destination] ++ keys.

Definition sdiffstore (destination : bytes) (keys : list bytes)
  : SE client handle :=
  let command := sdiffstore_command destination keys in
  pipeline <- get_pipeline ;;
  if pipeline then _pipeline_add command None
  else _execute command None.

(** *** sinter, sinterstore *)

Definition sinter_command (keys : list bytes) : command :=
  ["SINTER"] ++ keys.

Definition sinter (keys : list bytes) : SE client handle :=
  let command := sinter_command keys in
  pipeline <- get_pipeline ;;
  if pipeline then _pipeline_add command None
  else _execute command None.

Definition sinterstore_command (destination : bytes) (keys : list bytes)
  : command :=
  ["SINTERSTORE"; destination] ++ keys.

Definition sinterstore (destination : bytes) (keys : list bytes)
  : SE client handle :=
  let command := sinterstore_command destination keys in
  pipeline <- get_pipeline ;;
  if pipeline then _pipeline_add command None
  else _execute command None.

(** *** sismember *)

Definition sismember_command (key member : bytes) : command :=
  ["SISMEMBER"; key; member].

Definition sismember (key member : bytes) : SE client handle :=
  let command := sismember_command key member in
  pipeline <- get_pipeline ;;
  if pipeline then _pipeline_add command None
  else _execute command None.

(** *** smembers *)

Definition smembers_command (key : bytes) : command := ["SMEMBERS"; key].

Definition smembers (key : bytes) : SE client handle :=
  let command := smembers_command key in
  pipeline <- get_pipeline ;;
  if pipeline then _pipeline_add command None
  else _execute command None.

(** *** spop *)

(** [command = [b'SPOP', key]], then
    [if count: command.append(ascii(count).encode('ascii'))]. *)
Definition spop_command (key : bytes) (count : option Z) : command :=
  let command := ["SPOP"; key] in
  match count with
  | Some c => if c =? 0 then command else command ++ [ascii_int c]
  | None => command
  end.

Definition spop (key : bytes) (count : option Z) : SE client handle :=
  let command := spop_command key count in
  pipeline <- get_pipeline ;;
  if pipeline then _pipeline_add command None
  else _execute command None.

(** *** srandmember *)

Definition srandmember_command (key : bytes) (count : option Z) : command :=
  let command := ["SRANDMEMBER"; key] in
  match count with
  | Some c => if c =? 0 then command else command ++ [ascii_int c]
  | None => command
  end.

Definition srandmember (key : bytes) (count : option Z)
  : SE client handle :=
  let command := srandmember_command key count in
  pipeline <- get_pipeline ;;
  if pipeline then _pipeline_add command None
  else _execute command None.

(** *** srem *)

(** [_eval_response] of [srem], closed over [members]. *)
Definition srem_eval_response (members : list bytes) : normalizer :=
  fun value =>
    if py_eq_int value (len members) then Returned (VBool true)
    else Returned value.

(** [on_response] of [srem], closed over [future] and [members]. *)
Definition srem_on_response (members : list bytes) : callback :=
  fun response =>
    match exception response with
    | Some exc => set_exception exc
    | None =>
        raw <- lift (result response) ;;
        v <- call (srem_eval_response members) raw ;;
        set_result v
    end.

(** [command = [b'SREM', key] + list(members)] *)
Definition srem_command (key : bytes) (members : list bytes) : command :=
  ["SREM"; key] ++ members.

Definition srem (key : bytes) (members : list bytes) : SE client handle :=
  let command := srem_command key members in
  pipeline <- get_pipeline ;;
  if pipeline then
    _pipeline_add command (Some (srem_eval_response members))
  else
    _execute command (Some (srem_on_response members)) ;;
    ret AsyncResult.

(** *** sscan *)

(** [_format_response]: [return int(value[0]), value[1]]. *)
Definition sscan_format_response : normalizer :=
  fun value =>
    match getitem value 0 with
    | Raised e => Raised e
    | Returned head =>
        match py_int head with
        | Raised e => Raised e
        | Returned cursor =>
            match getitem value 1 with
            | Raised e => Raised e
            | Returned members => Returned (VTuple [VInt cursor; members])
            end
        end
    end.

(** [on_response] of [sscan], closed over [future]. *)
Definition sscan_on_response : callback :=
  fun response =>
    match exception response with
    | Some exc => set_exception exc
    | None =>
        raw <- lift (result response) ;;
        v <- call sscan_format_response raw ;;
        set_result v
    end.

(** [command = [b'SSCAN', key, ascii(cursor).encode('ascii')]], then
    [if pattern: command += [b'MATCH', pattern]] and
    [if count: command += [b'COUNT', ascii(count).encode('ascii')]]. *)
Definition sscan_command (key : bytes) (cursor : Z)
    (pattern : option bytes) (count : option Z) : command :=
  let command := ["SSCAN"; key; ascii_int cursor] in
  let command :=
    match pattern with
    | Some (String a p) => command ++ ["MATCH"; String a p]
    | Some EmptyString => command
    | None => command
    end in
  match count with
  | Some c =>
      if c =? 0 then command else command ++ ["COUNT"; ascii_int c]
  | None => command
  end.

Definition sscan (key : bytes) (cursor : Z) (pattern : option bytes)
    (count : option Z) : SE client handle :=
  let command := sscan_command key cursor pattern count in
  pipeline <- get_pipeline ;;
  if pipeline then _pipeline_add command (Some sscan_format_response)
  else
    _execute command (Some sscan_on_response) ;;
    ret AsyncResult.

(** *** sunion, sunionstore *)

Definition sunion_command (keys : list bytes) : command :=
  ["SUNION"] ++ keys.

Definition sunion (keys : list bytes) : SE client handle :=
  let command := sunion_command keys in
  pipeline <- get_pipeline ;;
  if pipeline then _pipeline_add command None
  else _execute command None.

Definition sunionstore_command (destination : bytes) (keys : list bytes)
  : command :=
  ["SUNIONSTORE"; destination] ++ keys.

Definition sunionstore (destination : bytes) (keys : list bytes)
  : SE client handle :=
  let command := sunionstore_command destination keys in
  pipeline <- get_pipeline ;;
  if pipeline then _pipeline_add command None
  else _execute command None.

(** *** smove *)

Section EvalIntResp.

(** What the integer evaluation makes of a reply other than 0 and 1; the
    spec does not say. *)
Variable other_reply : normalizer.

(** Modelled from the spec: the normalizer of
    [self._execute_and_eval_int_resp], which is defined in the client
    class, outside this file. The spec has the reply 1 become [True] and
    the reply 0 become [False]. *)
Definition eval_int_resp : normalizer :=
  fun value =>
    match value with
    | VInt 0 => Returned (VBool false)
    | VInt 1 => Returned (VBool true)
    | _ => other_reply value
    end.

(** Modelled from the spec: the continuation
    [self._execute_and_eval_int_resp] wires in direct mode. The spec has
    an executor failure fail the caller's result with the same error and
    a raw value resolve it with the normalized value. *)
Definition eval_int_resp_on_response : callback :=
  fun response =>
    match exception response with
    | Some exc => set_exception exc
    | None =>
        raw <- lift (result response) ;;
        v <- call eval_int_resp raw ;;
        set_result v
    end.

(** Modelled from the spec: [self._execute_and_eval_int_resp(command)]
    is defined in the client class, outside this file. The spec has every
    call made in pipeline mode register its (vector, normalizer) pair
    with the accumulator, and every other call submit the vector to the
    executor with the normalizer as continuation. *)
Definition _execute_and_eval_int_resp (cmd : command) : SE client handle :=
  pipeline <- get_pipeline ;;
  if pipeline then _pipeline_add cmd (Some eval_int_resp)
  else
    _execute cmd (Some eval_int_resp_on_response) ;;
    ret AsyncResult.

Definition smove_command (source destination member : bytes) : command :=
  ["SMOVE"; source; destination; member].

Definition smove (source destination member : bytes) : SE client handle :=
  _execute_and_eval_int_resp (smove_command source destination member).

End EvalIntResp.

End SetsMixin.

Import SetsMixin.

(** ** The exposed operations *)

(** One call of a method of the mixin, with its arguments. *)
Inductive operation : Type :=
| SADD (key : bytes) (members : list bytes)
| SCARD (key : bytes)
| SDIFF (keys : list bytes)
| SDIFFSTORE (destination : bytes) (keys : list bytes)
| SINTER (keys : list bytes)
| SINTERSTORE (destination : bytes) (keys : list bytes)
| SISMEMBER (key member : bytes)
| SMEMBERS (key : bytes)
| SMOVE (source destination member : bytes)
| SPOP (key : bytes) (count : option Z)
| SRANDMEMBER (key : bytes) (count : option Z)
| SREM (key : bytes) (members : list bytes)
| SSCAN (key : bytes) (cursor : Z) (pattern : option bytes)
    (count : option Z)
| SUNION (keys : list bytes)
| SUNIONSTORE (destination : bytes) (keys : list bytes).

Section Operations.

Variable other_reply : normalizer.

(** Making the call. *)
Definition invoke (op : operation) : SE client handle :=
  match op with
  | SADD key members => sadd key members
  | SCARD key => scard key
  | SDIFF keys => sdiff keys
  | SDIFFSTORE destination keys => sdiffstore destination keys
  | SINTER keys => sinter keys
  | SINTERSTORE destination keys => sinterstore destination keys
  | SISMEMBER key member => sismember key member
  | SMEMBERS key => smembers key
  | SMOVE source destination member =>
      smove other_reply source destination member
  | SPOP key count => spop key count
  | SRANDMEMBER key count => srandmember key count
  | SREM key members => srem key members
  | SSCAN key cursor pattern count => sscan key cursor pattern count
  | SUNION keys => sunion keys
  | SUNIONSTORE destination keys => sunionstore destination keys
  end.

(** The command vector of a call. *)
Definition command_of (op : operation) : command :=
  match op with
  | SADD key members => sadd_command key members
  | SCARD key => scard_command key
  | SDIFF keys => sdiff_command keys
  | SDIFFSTORE destination keys => sdiffstore_command destination keys
  | SINTER keys => sinter_command keys
  | SINTERSTORE destination keys => sinterstore_command destination keys
  | SISMEMBER key member => sismember_command key member
  | SMEMBERS key => smembers_command key
  | SMOVE source destination member =>
      smove_command source destination member
  | SPOP key count => spop_command key count
  | SRANDMEMBER key count => srandmember_command key count
  | SREM key members => srem_command key members
  | SSCAN key cursor pattern count =>
      sscan_command key cursor pattern count
  | SUNION keys => sunion_command keys
  | SUNIONSTORE destination keys => sunionstore_command destination keys
  end.

(** The normalizer of a call, [None] where the method passes none. *)
Definition normalizer_of (op : operation) : option normalizer :=
  match op with
  | SADD _ members => Some (sadd_eval_response members)
  | SREM _ members => Some (srem_eval_response members)
  | SSCAN _ _ _ _ => Some sscan_format_response
  | SMOVE _ _ _ => Some (eval_int_resp other_reply)
  | _ => None
  end.

(** The continuation of a call in direct mode, [None] where the method
    passes none. *)
Definition continuation_of (op : operation) : option callback :=
  match op with
  | SADD _ members => Some (sadd_on_response members)
  | SREM _ members => Some (srem_on_response members)
  | SSCAN _ _ _ _ => Some sscan_on_response
  | SMOVE _ _ _ => Some (eval_int_resp_on_response other_reply)
  | _ => None
  end.

End Operations.

(** ** Observing a call *)

(** The caller's future after the call [m], made on the client [st], has
    gone to the executor and the executor has completed it with [r];
    [None] if the call submitted nothing. *)
Definition await (m : SE client handle) (st : client) (r : response)
  : option (outcome unit * cell) :=
  match nth_error (submitted (snd (m st))) (List.length (submitted st)) with
  | Some (_, cb) => Some (deliver cb r)
  | None => None
  end.

(** The result at the position of the call [m], made on the client [st],
    once the pipeline is flushed and the server has answered [v] there;
    [None] if the call queued nothing. *)
Definition flushed (m : SE client handle) (st : client) (v : value)
  : option (outcome value) :=
  match nth_error (queued (snd (m st))) (List.length (queued st)) with
  | Some (_, f) => Some (normalize f v)
  | None => None
  end.

(** A sequence of values: a list or a tuple. *)
Definition is_sequence (v : value) : bool :=
  match v with
  | VList _ | VTuple _ => true
  | _ => false
  end.

(** The number of elements of a sequence. *)
Definition sequence_length (v : value) : option nat :=
  match v with
  | VList l | VTuple l => Some (List.length l)
  | _ => None
  end.

(** ** The SSCAN vector in the words of the specification *)

(** The specification's reading of the optional tokens: the MATCH pair
    when a non-empty pattern is supplied, the COUNT pair when a count is
    supplied. *)
Definition sscan_command_as_specified (key : bytes) (cursor : Z)
    (pattern : option bytes) (count : option Z) : command :=
  ["SSCAN"; key; ascii_int cursor]
  ++ match pattern with
     | Some (String a p) => ["MATCH"; String a p]
     | _ => []
     end
  ++ match count with
     | Some c => ["COUNT"; ascii_int c]
     | None => []
     end.

(** ** Decimal text as a server writes it *)

(** A non-empty string of digits without a leading zero, the single
    digit 0 apart: the text of a cursor in a Redis reply. *)
Definition canonical_decimal (s : string) : bool :=
  match s with
  | EmptyString => false
  | String a EmptyString => all_digits s
  | String a _ => all_digits s && negb (Ascii.eqb a "0")
  end.

(** A character [int] can accept somewhere in a literal: a digit, a
    sign, a blank or an underscore. *)
Definition literal_char (a : ascii) : bool :=
  match digit_value a with
  | Some _ => true
  | None =>
      is_space a || Ascii.eqb a "+" || Ascii.eqb a "-" || Ascii.eqb a "_"
  end.

Fixpoint all_literal_chars (s : string) : bool :=
  match s with
  | EmptyString => true
  | String a s' => literal_char a && all_literal_chars s'
  end.

(** ** Calls in a row *)

(** A caller making the calls [ops] one after the other on the same
    client, collecting what each returns. *)
Fixpoint invoke_all (other_reply : normalizer) (ops : list operation)
  : SE client (list handle) :=
  match ops with
  | [] => ret []
  | op :: ops' =>
      h <- invoke other_reply op ;;
      hs <- invoke_all other_reply ops' ;;
      ret (h :: hs)
  end.

(** The operations whose choice between accumulator and executor is
    written in this file; [smove] leaves it to a helper of the client. *)
Definition dispatches_here (op : operation) : bool :=
  match op with
  | SMOVE _ _ _ => false
  | _ => true
  end.

(** An optional count as [if count:] sees it: 0 is no count. *)
Definition effective_count (count : option Z) : option Z :=
  match count with
  | Some c => if c =? 0 then None else Some c
  | None => None
  end.

(** An optional pattern as [if pattern:] sees it: the empty string is no
    pattern. *)
Definition effective_pattern (pattern : option bytes) : option bytes :=
  match pattern with
  | Some EmptyString => None
  | _ => pattern
  end.

(** A call with its optional arguments as the truthiness tests see
    them. *)
Definition effective (op : operation) : operation :=
  match op with
  | SPOP key count => SPOP key (effective_count count)
  | SRANDMEMBER key count => SRANDMEMBER key (effective_count count)
  | SSCAN key cursor pattern count =>
      SSCAN key cursor (effective_pattern pattern) (effective_count count)
  | _ => op
  end.

(** * Properties *)

(** ** Decimal text *)

Section Decimal.

Lemma digit_value_digit_char (d : Z) :
  0 <= d < 10 -> digit_value (digit_char d) = Some d.
Proof.
  intros Hd.
  assert (Hcases : d = 0 \/ d = 1 \/ d = 2 \/ d = 3 \/ d = 4 \/ d = 5
                   \/ d = 6 \/ d = 7 \/ d = 8 \/ d = 9) by lia.
  repeat (destruct Hcases as [-> | Hcases]; [reflexivity |]).
  subst d; reflexivity.
Qed.

(** A digit is neither a blank nor a sign. *)
Lemma digit_not_space (a : ascii) (d : Z) :
  digit_value a = Some d -> is_space a = false.
Proof.
  intros H.
  destruct a as [[] [] [] [] [] [] [] []];
    solve [reflexivity | vm_compute in H; discriminate H].
Qed.

Lemma signed_literal_digit (a : ascii) (s : string) (d : Z) :
  digit_value a = Some d ->
  signed_literal (String a s) = unsigned_literal (String a s).
Proof.
  intros H.
  destruct a as [[] [] [] [] [] [] [] []];
    solve [reflexivity | vm_compute in H; discriminate H].
Qed.

(** On a string of digits the parser computes the positional value. *)
Lemma more_digits_all_digits (s : string) :
  forall acc, all_digits s = true ->
              more_digits acc s = Some (decimal_value acc s).
Proof.
  induction s as [| a s IH]; intros acc H; simpl in *.
  - reflexivity.
  - destruct (digit_value a) as [d |]; [| discriminate].
    now apply IH.
Qed.

Lemma int_of_bytes_all_digits (s : string) :
  s <> "" -> all_digits s = true ->
  int_of_bytes s = Returned (decimal_value 0 s).
Proof.
  destruct s as [| a s]; [congruence |]. intros _ H.
  simpl in H. destruct (digit_value a) as [d |] eqn:Ea; [| discriminate].
  unfold int_of_bytes. cbn [lstrip].
  rewrite (digit_not_space _ _ Ea), (signed_literal_digit _ _ _ Ea).
  cbn [unsigned_literal decimal_value]. rewrite Ea.
  rewrite (more_digits_all_digits _ _ H).
  now replace (10 * 0 + d) with d by lia.
Qed.

(** What the printer writes in front of [acc] is a string of digits ... *)
Lemma digits_onto_all_digits (fuel : nat) :
  forall n acc, all_digits acc = true ->
                all_digits (digits_onto fuel n acc) = true.
Proof.
  induction fuel as [| fuel IH]; intros n acc H; cbn [digits_onto].
  - exact H.
  - assert (Hd : all_digits (String (digit_char (n mod 10)) acc) = true).
    { cbn [all_digits]. rewrite digit_value_digit_char; [exact H |].
      apply Z.mod_pos_bound; lia. }
    destruct (n <? 10); [exact Hd | now apply IH].
Qed.

Lemma digits_onto_nonempty (fuel : nat) :
  forall n acc, (fuel <> O \/ acc <> "") -> digits_onto fuel n acc <> "".
Proof.
  induction fuel as [| fuel IH]; intros n acc H; cbn [digits_onto].
  - destruct H; congruence.
  - destruct (n <? 10); [discriminate |].
    apply IH. right. discriminate.
Qed.

(** ... whose value is [n], shifted in front of the value of [acc]. *)
Lemma decimal_value_digits_onto (fuel : nat) :
  forall n acc, 0 <= n < 10 ^ Z.of_nat fuel ->
    exists k, forall a,
      decimal_value a (digits_onto fuel n acc)
      = decimal_value (a * 10 ^ k + n) acc /\ 0 <= k.
Proof.
  induction fuel as [| fuel IH]; intros n acc Hn.
  - exists 0. intros a. cbn [digits_onto]. split; [| lia].
    f_equal. change (Z.of_nat 0) with 0 in Hn. lia.
  - cbn [digits_onto].
    assert (Hm : 0 <= n mod 10 < 10) by (apply Z.mod_pos_bound; lia).
    destruct (n <? 10) eqn:E.
    + apply Z.ltb_lt in E. exists 1. intros a. split; [| lia].
      cbn [decimal_value]. rewrite digit_value_digit_char by exact Hm.
      f_equal. rewrite Z.mod_small by lia. lia.
    + apply Z.ltb_ge in E.
      assert (Hq : 0 <= n / 10 < 10 ^ Z.of_nat fuel).
      { split; [apply Z.div_pos; lia |].
        apply Z.div_lt_upper_bound; [lia |].
        replace (Z.of_nat (S fuel)) with (Z.succ (Z.of_nat fuel)) in Hn
          by lia.
        rewrite Z.pow_succ_r in Hn by lia. lia. }
      destruct (IH (n / 10) (String (digit_char (n mod 10)) acc) Hq)
        as [k Hk].
      exists (Z.succ k). intros a. destruct (Hk a) as [-> Hk0].
      split; [| lia].
      cbn [decimal_value]. rewrite digit_value_digit_char by exact Hm.
      f_equal. rewrite Z.pow_succ_r by lia.
      pose proof (Z.div_mod n 10 ltac:(lia)). lia.
Qed.

Lemma digits_of_fuel (n : Z) :
  0 <= n -> 0 <= n < 10 ^ Z.of_nat (S (Z.to_nat (Z.log2 n))).
Proof.
  intros Hn. split; [exact Hn |].
  pose proof (Z.log2_nonneg n) as Hl.
  replace (Z.of_nat (S (Z.to_nat (Z.log2 n)))) with (Z.succ (Z.log2 n))
    by lia.
  destruct (Z.eq_dec n 0) as [-> | Hnz].
  - reflexivity.
  - pose proof (Z.log2_spec n ltac:(lia)) as [_ Hlt].
    eapply Z.lt_le_trans; [exact Hlt |].
    apply Z.pow_le_mono_l. lia.
Qed.

Lemma decimal_value_digits_of (n : Z) :
  0 <= n -> decimal_value 0 (digits_of n) = n.
Proof.
  intros Hn. unfold digits_of.
  destruct (decimal_value_digits_onto _ n "" (digits_of_fuel n Hn))
    as [k Hk].
  destruct (Hk 0) as [-> _]. simpl. lia.
Qed.

Lemma int_of_bytes_digits_of (n : Z) :
  0 <= n -> int_of_bytes (digits_of n) = Returned n.
Proof.
  intros Hn. rewrite int_of_bytes_all_digits.
  - now rewrite decimal_value_digits_of.
  - apply digits_onto_nonempty. left. discriminate.
  - now apply digits_onto_all_digits.
Qed.

(** [int] reads back what [ascii] wrote, for every integer. *)
Lemma int_of_bytes_ascii_int (n : Z) :
  int_of_bytes (ascii_int n) = Returned n.
Proof.
  unfold ascii_int. destruct (n <? 0) eqn:E.
  - apply Z.ltb_lt in E.
    pose proof (int_of_bytes_digits_of (- n) ltac:(lia)) as H.
    unfold int_of_bytes in *. cbn [lstrip].
    change (is_space "-") with false. cbn iota.
    cbn [signed_literal].
    destruct (digits_of (- n)) as [| a s] eqn:Es.
    + discriminate H.
    + cbn [lstrip] in H.
      destruct (digit_value a) as [d |] eqn:Ea.
      * rewrite (digit_not_space _ _ Ea),
          (signed_literal_digit _ _ _ Ea) in H.
        destruct (unsigned_literal (String a s)) as [z |];
          [| discriminate].
        injection H as ->. simpl. f_equal. lia.
      * exfalso.
        pose proof (digits_onto_all_digits
                      (S (Z.to_nat (Z.log2 (- n)))) (- n) ""
                      eq_refl) as Hd.
        fold (digits_of (- n)) in Hd. rewrite Es in Hd.
        simpl in Hd. now rewrite Ea in Hd.
  - apply Z.ltb_ge in E. now apply int_of_bytes_digits_of.
Qed.

End Decimal.

(** ** The two ways out of a call *)

Section Dispatch.

Variable other_reply : normalizer.

Lemma nth_error_snoc {A : Type} (l : list A) (x : A) :
  nth_error (l ++ [x]) (List.length l) = Some x.
Proof.
  induction l as [| y l IH]; simpl; [reflexivity | exact IH].
Qed.

(** With the flag set, a call ends in [_pipeline_add]. *)
Lemma invoke_pipeline (op : operation) (st : client) :
  _pipeline st = true ->
  invoke other_reply op st
  = (Returned Placeholder,
     mkClient true
       (queued st ++ [(command_of op, normalizer_of other_reply op)])
       (submitted st)).
Proof.
  intros H. destruct st as [flag q s]. simpl in H. subst flag.
  destruct op; reflexivity.
Qed.

(** With the flag clear, a call ends in [_execute]. *)
Lemma invoke_direct (op : operation) (st : client) :
  _pipeline st = false ->
  invoke other_reply op st
  = (Returned AsyncResult,
     mkClient false (queued st)
       (submitted st ++ [(command_of op, continuation_of other_reply op)])).
Proof.
  intros H. destruct st as [flag q s]. simpl in H. subst flag.
  destruct op; reflexivity.
Qed.

Lemma await_invoke (op : operation) (st : client) (r : response) :
  _pipeline st = false ->
  await (invoke other_reply op) st r
  = Some (deliver (continuation_of other_reply op) r).
Proof.
  intros H. unfold await. rewrite (invoke_direct op st H).
  cbn [snd submitted]. now rewrite nth_error_snoc.
Qed.

Lemma flushed_invoke (op : operation) (st : client) (v : value) :
  _pipeline st = true ->
  flushed (invoke other_reply op) st v
  = Some (normalize (normalizer_of other_reply op) v).
Proof.
  intros H. unfold flushed. rewrite (invoke_pipeline op st H).
  cbn [snd queued]. now rewrite nth_error_snoc.
Qed.

End Dispatch.

(** Runs a continuation on the response it is given. *)
Ltac run_continuation :=
  unfold deliver, continuation_of, sadd_on_response, srem_on_response,
    sscan_on_response, eval_int_resp_on_response, bind, lift, call,
    set_result, set_exception, TracebackFuture;
  cbn [exception result fut calls app].

(** ** SADD and SREM: all requested members, or the count *)

(** C1: for a tuple of N requested members the normalizers of [sadd] and
    [srem] turn the integer reply N into [True] and hand back every
    integer reply M other than N as the integer M. *)
Theorem add_remove_reply_normalized (members : list bytes) (M : Z) :
  (sadd_eval_response members (VInt (len members)) = Returned (VBool true)
   /\ srem_eval_response members (VInt (len members))
      = Returned (VBool true))
  /\ (M <> len members ->
      sadd_eval_response members (VInt M) = Returned (VInt M)
      /\ srem_eval_response members (VInt M) = Returned (VInt M)).
Proof.
  unfold sadd_eval_response, srem_eval_response, py_eq_int.
  rewrite Z.eqb_refl. split; [split; reflexivity |].
  intros HM. apply Z.eqb_neq in HM. rewrite HM. split; reflexivity.
Qed.

Lemma add_remove_reply_normalized_witness :
  1 <> len ["a"; "b"]
  /\ sadd_eval_response ["a"; "b"] (VInt 1) = Returned (VInt 1)
  /\ srem_eval_response ["a"; "b"] (VInt 1) = Returned (VInt 1).
Proof.
  split.
  - vm_compute. discriminate.
  - apply (proj2 (add_remove_reply_normalized ["a"; "b"] 1)).
    vm_compute. discriminate.
Defined.

(** ** SISMEMBER and SCARD: no normalizer *)

(** C3: [sismember] takes the same way out as [scard], with no
    normalizer and no continuation: in both modes the caller gets the raw
    reply, so the integer 1 stays the integer 1 and is not turned into
    [True]. The cardinality of [scard] is passed through as claimed. *)
Theorem sismember_scard_pass_through (key member : bytes) (st : client)
    (v : value) :
  let direct := mkClient false (queued st) (submitted st) in
  let piped := mkClient true (queued st) (submitted st) in
  (await (sismember key member) direct (Resolved v)
   = Some (Returned tt, mkCell (Result v) [])
   /\ flushed (sismember key member) piped v = Some (Returned v))
  /\ (await (scard key) direct (Resolved v)
      = Some (Returned tt, mkCell (Result v) [])
      /\ flushed (scard key) piped v = Some (Returned v))
  /\ VInt 1 <> VBool true.
Proof.
  intros direct piped.
  pose (id_reply := (fun x => Returned x) : normalizer).
  repeat split.
  - exact (await_invoke id_reply (SISMEMBER key member) direct
             (Resolved v) eq_refl).
  - exact (flushed_invoke id_reply (SISMEMBER key member) piped v eq_refl).
  - exact (await_invoke id_reply (SCARD key) direct (Resolved v) eq_refl).
  - exact (flushed_invoke id_reply (SCARD key) piped v eq_refl).
  - discriminate.
Qed.

(** ** SMOVE: the reply as a boolean *)

(** C9: for every source, destination and member, [smove] turns the
    integer reply 1 into [True] and the integer reply 0 into [False], in
    direct mode and at its position of a flushed pipeline. *)
Theorem smove_reply_boolean (other_reply : normalizer)
    (source destination member : bytes) (st : client) :
  let direct := mkClient false (queued st) (submitted st) in
  let piped := mkClient true (queued st) (submitted st) in
  let move := smove other_reply source destination member in
  (await move direct (Resolved (VInt 1))
   = Some (Returned tt, mkCell (Result (VBool true)) [VInt 1])
   /\ await move direct (Resolved (VInt 0))
      = Some (Returned tt, mkCell (Result (VBool false)) [VInt 0]))
  /\ (flushed move piped (VInt 1) = Some (Returned (VBool true))
      /\ flushed move piped (VInt 0) = Some (Returned (VBool false))).
Proof.
  intros direct piped move.
  pose (op := SMOVE source destination member).
  repeat split.
  - exact (await_invoke other_reply op direct (Resolved (VInt 1)) eq_refl).
  - exact (await_invoke other_reply op direct (Resolved (VInt 0)) eq_refl).
  - exact (flushed_invoke other_reply op piped (VInt 1) eq_refl).
  - exact (flushed_invoke other_reply op piped (VInt 0) eq_refl).
Qed.

(** ** Direct mode: failures bypass the normalizer *)




(** ** Pipeline mode *)

(** C2: whatever the operation, a call made while the flag is set
    registers its command vector and its normalizer with the accumulator
    and returns, handing nothing to the executor. The flag is read by the
    call itself: the same call on the same queues goes to the executor
    once the flag is clear. *)
Theorem pipeline_mode_registers (other_reply : normalizer)
    (op : operation) (st : client) :
  _pipeline st = true ->
  invoke other_reply op st
  = (Returned Placeholder,
     mkClient true
       (queued st ++ [(command_of op, normalizer_of other_reply op)])
       (submitted st))
  /\ invoke other_reply op (mkClient false (queued st) (submitted st))
     = (Returned AsyncResult,
        mkClient false (queued st)
          (submitted st
           ++ [(command_of op, continuation_of other_reply op)])).
Proof.
  intros H. split.
  - now apply invoke_pipeline.
  - now apply (invoke_direct other_reply op
                 (mkClient false (queued st) (submitted st))).
Qed.

Lemma pipeline_mode_registers_witness :
  let other := (fun v => Returned v) : normalizer in
  let st := mkClient true [] [] in
  invoke other (SMOVE "s" "d" "m") st
  = (Returned Placeholder,
     mkClient true [(["SMOVE"; "s"; "d"; "m"], Some (eval_int_resp other))]
       [])
  /\ invoke other (SCARD "k") (mkClient false [] [])
     = (Returned AsyncResult, mkClient false [] [(["SCARD"; "k"], None)]).
Proof.
  intros other st.
  split.
  - exact (proj1 (pipeline_mode_registers other (SMOVE "s" "d" "m") st
                    eq_refl)).
  - exact (proj2 (pipeline_mode_registers other (SCARD "k") st eq_refl)).
Defined.

(** ** Variadic commands without variadic arguments *)

(** C8: called with no member or no key, a variadic operation raises
    nothing: its vector holds the command name and the fixed leading key
    only, and goes as it is to the accumulator or to the executor. *)
Theorem zero_variadic_forwarded (other_reply : normalizer)
    (key destination : bytes) (st : client) :
  let ops := [SADD key []; SREM key []; SDIFF []; SINTER []; SUNION [];
              SDIFFSTORE destination []; SINTERSTORE destination [];
              SUNIONSTORE destination []] in
  map command_of ops
  = [["SADD"; key]; ["SREM"; key]; ["SDIFF"]; ["SINTER"]; ["SUNION"];
     ["SDIFFSTORE"; destination]; ["SINTERSTORE"; destination];
     ["SUNIONSTORE"; destination]]
  /\ Forall
       (fun op =>
          invoke other_reply op st
          = if _pipeline st then
              (Returned Placeholder,
               mkClient true
                 (queued st
                  ++ [(command_of op, normalizer_of other_reply op)])
                 (submitted st))
            else
              (Returned AsyncResult,
               mkClient false (queued st)
                 (submitted st
                  ++ [(command_of op, continuation_of other_reply op)])))
       ops.
Proof.
  intros ops. split; [reflexivity |].
  apply Forall_forall. intros op _.
  destruct (_pipeline st) eqn:E.
  - now apply invoke_pipeline.
  - now apply invoke_direct.
Qed.

(** ** The SSCAN vector *)

(** C5, as the specification words it, fails for a count of 0: the
    vector carries no COUNT pair although a count was supplied. *)
Lemma sscan_count_zero_not_sent :
  sscan_command "k" 0 None (Some 0) = ["SSCAN"; "k"; "0"]
  /\ sscan_command_as_specified "k" 0 None (Some 0)
     = ["SSCAN"; "k"; "0"; "COUNT"; "0"]
  /\ sscan_command "k" 0 None (Some 0)
     <> sscan_command_as_specified "k" 0 None (Some 0).
Proof.
  repeat split. vm_compute. discriminate.
Qed.

(** C5, amended: the vector is [SSCAN], the key and the base-ten text of
    the cursor, then [MATCH] and the pattern exactly when a non-empty
    pattern is supplied, then [COUNT] and the base-ten text of the count
    exactly when a count other than 0 is supplied, in that order; a count
    of 0 gives the vector of a call without count. The base-ten text of
    an integer is the text [int] reads back as that integer. *)
Theorem sscan_command_tokens (key : bytes) (cursor : Z)
    (pattern : option bytes) (count : option Z) :
  (count <> Some 0 ->
   sscan_command key cursor pattern count
   = sscan_command_as_specified key cursor pattern count)
  /\ sscan_command key cursor pattern (Some 0)
     = sscan_command_as_specified key cursor pattern None
  /\ (forall n, int_of_bytes (ascii_int n) = Returned n).
Proof.
  split; [| split].
  - intros Hc. unfold sscan_command, sscan_command_as_specified.
    destruct count as [c |].
    + destruct (c =? 0) eqn:E.
      * apply Z.eqb_eq in E. congruence.
      * destruct pattern as [[| a p] |]; reflexivity.
    + destruct pattern as [[| a p] |]; reflexivity.
  - unfold sscan_command, sscan_command_as_specified.
    destruct pattern as [[| a p] |]; reflexivity.
  - exact int_of_bytes_ascii_int.
Qed.

Lemma sscan_command_tokens_witness :
  Some 10 <> Some 0
  /\ sscan_command "k" 17 (Some "a*") (Some 10)
     = ["SSCAN"; "k"; "17"; "MATCH"; "a*"; "COUNT"; "10"].
Proof.
  split.
  - discriminate.
  - rewrite (proj1 (sscan_command_tokens "k" 17 (Some "a*") (Some 10)))
      by discriminate.
    reflexivity.
Defined.

(** ** The SSCAN reply *)

(** C6: on a reply made of a base-ten cursor string and a member list,
    the normalizer of [sscan] returns the cursor as an integer with the
    member list as it came; the cursor is read right for every value up
    to 2^64 - 1, and for every non-empty string of digits it is the
    positional value of the digits. *)
Theorem sscan_reply_cursor_parsed (c : Z) (s : bytes) (members : value) :
  (0 <= c <= 2 ^ 64 - 1 ->
   sscan_format_response (VList [VBytes (ascii_int c); members])
   = Returned (VTuple [VInt c; members]))
  /\ (s <> "" -> all_digits s = true ->
      sscan_format_response (VList [VBytes s; members])
      = Returned (VTuple [VInt (decimal_value 0 s); members])).
Proof.
  unfold sscan_format_response. cbn [getitem nth_error py_int].
  split.
  - intros _. now rewrite int_of_bytes_ascii_int.
  - intros Hs Hd. now rewrite int_of_bytes_all_digits.
Qed.

Lemma sscan_reply_cursor_parsed_witness :
  let members := VList [VBytes "a"; VBytes "b"] in
  sscan_format_response (VList [VBytes "18446744073709551615"; members])
  = Returned (VTuple [VInt 18446744073709551615; members])
  /\ sscan_format_response (VList [VBytes "007"; members])
     = Returned (VTuple [VInt 7; members]).
Proof.
  intros members. split.
  - apply (proj1 (sscan_reply_cursor_parsed (2 ^ 64 - 1) "0" members)).
    lia.
  - apply (proj2 (sscan_reply_cursor_parsed 0 "007" members)).
    + discriminate.
    + reflexivity.
Defined.

(** ** SPOP: the reply as it came *)

(** C7, as the specification words it, fails: [spop] attaches no
    normalizer, so a call without count answered with an array resolves
    to that array, and a call with a count of 2 answered with a bulk
    string resolves to that string. *)
Lemma spop_shape_follows_reply :
  let st := mkClient false [] [] in
  let two := VList [VBytes "a"; VBytes "b"] in
  (await (spop "k" None) st (Resolved two)
   = Some (Returned tt, mkCell (Result two) [])
   /\ is_sequence two = true)
  /\ (await (spop "k" (Some 2)) st (Resolved (VBytes "a"))
      = Some (Returned tt, mkCell (Result (VBytes "a")) [])
      /\ sequence_length (VBytes "a") <> Some 2%nat).
Proof.
  intros st two. repeat split. discriminate.
Qed.

(** C7, amended: with or without count, [spop] hands the caller the raw
    reply unchanged, in direct mode and at its position of a flushed
    pipeline, so the result has the shape of the reply. The count decides
    the vector only: [SPOP] and the key without count, followed by the
    text 2 for a count of 2. *)
Theorem spop_reply_passes_through (key : bytes) (count : option Z)
    (st : client) (v : value) :
  let direct := mkClient false (queued st) (submitted st) in
  let piped := mkClient true (queued st) (submitted st) in
  (await (spop key count) direct (Resolved v)
   = Some (Returned tt, mkCell (Result v) [])
   /\ flushed (spop key count) piped v = Some (Returned v))
  /\ (spop_command key None = ["SPOP"; key]
      /\ spop_command key (Some 2) = ["SPOP"; key; "2"]).
Proof.
  intros direct piped.
  pose (id_reply := (fun x => Returned x) : normalizer).
  repeat split.
  - exact (await_invoke id_reply (SPOP key count) direct (Resolved v)
             eq_refl).
  - exact (flushed_invoke id_reply (SPOP key count) piped v eq_refl).
Qed.

(** ** Optional arguments that are there and false *)

(** C10: a count of 0 given to [spop], [srandmember] or [sscan], and an
    empty pattern given to [sscan], leave the command vector, and with it
    the whole call, what it is without that argument. *)
Theorem falsy_argument_as_omitted (key : bytes) (cursor : Z)
    (pattern : option bytes) (count : option Z) :
  (spop_command key (Some 0) = spop_command key None
   /\ srandmember_command key (Some 0) = srandmember_command key None
   /\ sscan_command key cursor pattern (Some 0)
      = sscan_command key cursor pattern None
   /\ sscan_command key cursor (Some "") count
      = sscan_command key cursor None count)
  /\ (spop key (Some 0) = spop key None
      /\ srandmember key (Some 0) = srandmember key None
      /\ sscan key cursor pattern (Some 0) = sscan key cursor pattern None
      /\ sscan key cursor (Some "") count = sscan key cursor None count).
Proof.
  repeat split.
Qed.

(** * Further properties *)

(** ** Writing a cursor back *)

Section CanonicalDecimal.

Lemma digit_char_digit_value (a : ascii) (d : Z) :
  digit_value a = Some d -> digit_char d = a.
Proof.
  intros H.
  destruct a as [[] [] [] [] [] [] [] []]; vm_compute in H;
    first [discriminate H | injection H as <-; reflexivity].
Qed.

Lemma digit_value_zero (a : ascii) :
  digit_value a = Some 0 -> Ascii.eqb a "0" = true.
Proof.
  intros H.
  destruct a as [[] [] [] [] [] [] [] []]; vm_compute in H;
    first [discriminate H | reflexivity].
Qed.

Lemma digit_value_bounds (a : ascii) (d : Z) :
  digit_value a = Some d -> 0 <= d < 10.
Proof.
  intros H.
  destruct a as [[] [] [] [] [] [] [] []]; vm_compute in H;
    first [discriminate H | injection H as <-; lia].
Qed.

Lemma append_empty_r (s : string) : (s ++ "")%string = s.
Proof.
  induction s as [| a s IH]; simpl; [reflexivity | now rewrite IH].
Qed.

Lemma append_snoc (s t : string) (a : ascii) :
  ((s ++ String a "") ++ t = s ++ String a t)%string.
Proof.
  induction s as [| b s IH]; simpl; [reflexivity | now rewrite IH].
Qed.

(** The printer writes in front of what is there already. *)
Lemma digits_onto_append (fuel : nat) :
  forall n acc1 acc2,
    digits_onto fuel n (acc1 ++ acc2)%string
    = (digits_onto fuel n acc1 ++ acc2)%string.
Proof.
  induction fuel as [| fuel IH]; intros n acc1 acc2; cbn [digits_onto].
  - reflexivity.
  - destruct (n <? 10); [reflexivity |].
    exact (IH (n / 10) (String (digit_char (n mod 10)) acc1) acc2).
Qed.

(** Fuel beyond the number of digits changes nothing. *)
Lemma digits_onto_fuel (f1 : nat) :
  forall f2 n acc,
    0 < n < 10 ^ Z.of_nat f1 -> n < 10 ^ Z.of_nat f2 ->
    digits_onto f1 n acc = digits_onto f2 n acc.
Proof.
  induction f1 as [| f1 IH]; intros f2 n acc H1 H2.
  - change (Z.of_nat 0) with 0 in H1. lia.
  - destruct f2 as [| f2]; [change (Z.of_nat 0) with 0 in H2; lia |].
    cbn [digits_onto]. destruct (n <? 10) eqn:E; [reflexivity |].
    apply Z.ltb_ge in E.
    replace (Z.of_nat (S f1)) with (Z.succ (Z.of_nat f1)) in H1 by lia.
    replace (Z.of_nat (S f2)) with (Z.succ (Z.of_nat f2)) in H2 by lia.
    rewrite Z.pow_succ_r in H1, H2 by lia.
    apply IH.
    + split.
      * apply Z.div_str_pos. lia.
      * apply Z.div_lt_upper_bound; lia.
    + apply Z.div_lt_upper_bound; lia.
Qed.

Lemma digits_of_snoc (n d : Z) :
  0 < n -> 0 <= d < 10 ->
  digits_of (10 * n + d)
  = (digits_of n ++ String (digit_char d) "")%string.
Proof.
  intros Hn Hd.
  pose proof (digits_of_fuel (10 * n + d) ltac:(lia)) as [_ Hf].
  pose proof (digits_of_fuel n ltac:(lia)) as [_ Hg].
  unfold digits_of at 1. cbn [digits_onto].
  replace (10 * n + d <? 10) with false by (symmetry; apply Z.ltb_ge; lia).
  replace ((10 * n + d) mod 10) with d
    by (apply (Z.mod_unique_pos _ _ n); lia).
  replace ((10 * n + d) / 10) with n
    by (apply (Z.div_unique_pos _ _ _ d); lia).
  replace (Z.of_nat (S (Z.to_nat (Z.log2 (10 * n + d)))))
    with (Z.succ (Z.of_nat (Z.to_nat (Z.log2 (10 * n + d))))) in Hf by lia.
  rewrite Z.pow_succ_r in Hf by lia.
  rewrite (digits_onto_fuel _ (S (Z.to_nat (Z.log2 n))) n) by lia.
  exact (digits_onto_append _ n "" (String (digit_char d) "")).
Qed.

Lemma decimal_value_nonneg (s : string) :
  forall acc, 0 <= acc -> acc <= decimal_value acc s.
Proof.
  induction s as [| a s IH]; intros acc H; cbn [decimal_value].
  - lia.
  - destruct (digit_value a) as [d |] eqn:E; [| lia].
    pose proof (digit_value_bounds _ _ E) as Hd.
    specialize (IH (10 * acc + d) ltac:(lia)). lia.
Qed.

(** Printing the value read after a non-zero prefix gives the prefix and
    the digits read. *)
Lemma digits_of_decimal_value (s : string) :
  forall acc, 0 < acc -> all_digits s = true ->
              digits_of (decimal_value acc s)
              = (digits_of acc ++ s)%string.
Proof.
  induction s as [| a s IH]; intros acc Hacc Hs;
    cbn [decimal_value all_digits] in *.
  - now rewrite append_empty_r.
  - destruct (digit_value a) as [d |] eqn:E; [| discriminate].
    pose proof (digit_value_bounds _ _ E) as Hd.
    rewrite IH by (lia || assumption).
    rewrite digits_of_snoc by lia.
    rewrite (digit_char_digit_value _ _ E).
    apply append_snoc.
Qed.

Lemma digits_of_digit (a : ascii) (d : Z) :
  digit_value a = Some d -> digits_of d = String a "".
Proof.
  intros E. pose proof (digit_value_bounds _ _ E) as Hd.
  unfold digits_of. cbn [digits_onto].
  replace (d <? 10) with true by (symmetry; apply Z.ltb_lt; lia).
  rewrite Z.mod_small by lia.
  now rewrite (digit_char_digit_value _ _ E).
Qed.

(** [ascii] writes back the canonical text [int] has read. *)
Lemma ascii_int_decimal_value (s : string) :
  canonical_decimal s = true -> ascii_int (decimal_value 0 s) = s.
Proof.
  destruct s as [| a s]; [discriminate |]. intros H.
  assert (Hd : all_digits (String a s) = true
               /\ (s <> "" -> Ascii.eqb a "0" = false)).
  { cbn [canonical_decimal] in H. destruct s as [| b s].
    - split; [exact H | congruence].
    - apply andb_prop in H as [H1 H2]. split; [exact H1 |].
      intros _. now apply negb_true_iff in H2. }
  destruct Hd as [Hall Hlead]. clear H.
  cbn [all_digits decimal_value] in *.
  destruct (digit_value a) as [d |] eqn:E; [| discriminate].
  pose proof (digit_value_bounds _ _ E) as Hd.
  replace (10 * 0 + d) with d by lia.
  unfold ascii_int.
  pose proof (decimal_value_nonneg s d ltac:(lia)) as Hnn.
  replace (decimal_value d s <? 0) with false
    by (symmetry; apply Z.ltb_ge; lia).
  destruct s as [| b s].
  - cbn [decimal_value]. exact (digits_of_digit _ _ E).
  - assert (0 < d).
    { destruct (Z.eq_dec d 0) as [-> | Hnz]; [| lia].
      rewrite (digit_value_zero _ E) in Hlead.
      now specialize (Hlead ltac:(discriminate)). }
    rewrite digits_of_decimal_value by assumption.
    now rewrite (digits_of_digit _ _ E).
Qed.

End CanonicalDecimal.

Lemma canonical_decimal_digits (s : string) :
  canonical_decimal s = true -> s <> "" /\ all_digits s = true.
Proof.
  destruct s as [| a [| b s]]; cbn [canonical_decimal]; intros H.
  - discriminate.
  - split; [discriminate | exact H].
  - apply andb_prop in H as [H _]. split; [discriminate | exact H].
Qed.

(** X1: when the server writes the cursor as canonical decimal text, the
    integer the normalizer of [sscan] returns, given as the cursor of the
    next call, puts the very same text back on the wire. *)
Theorem sscan_cursor_fed_back (key : bytes) (pattern : option bytes)
    (count : option Z) (s : bytes) (members : value) :
  canonical_decimal s = true ->
  exists c,
    sscan_format_response (VList [VBytes s; members])
    = Returned (VTuple [VInt c; members])
    /\ firstn 3 (sscan_command key c pattern count) = ["SSCAN"; key; s].
Proof.
  intros H. destruct (canonical_decimal_digits s H) as [Hne Hd].
  exists (decimal_value 0 s). split.
  - unfold sscan_format_response. cbn [getitem nth_error py_int].
    now rewrite int_of_bytes_all_digits.
  - unfold sscan_command. rewrite (ascii_int_decimal_value s H).
    destruct pattern as [[| a p] |]; destruct count as [c |];
      try destruct (c =? 0); reflexivity.
Qed.

Lemma sscan_cursor_fed_back_witness :
  exists c,
    sscan_format_response
      (VList [VBytes "18446744073709551615"; VList [VBytes "a"]])
    = Returned (VTuple [VInt c; VList [VBytes "a"]])
    /\ firstn 3 (sscan_command "k" c (Some "a*") None)
       = ["SSCAN"; "k"; "18446744073709551615"].
Proof.
  apply (sscan_cursor_fed_back "k" (Some "a*") None
           "18446744073709551615" (VList [VBytes "a"])).
  reflexivity.
Defined.

(** ** Replies the SSCAN normalizer cannot read *)

(** X2: in direct mode, when the normalizer of [sscan] raises on the
    reply, the exception leaves the continuation and the caller's future
    is never completed: it gets neither a result nor an exception. *)
Theorem sscan_unreadable_reply_leaves_future_pending (key : bytes)
    (cursor : Z) (pattern : option bytes) (count : option Z)
    (st : client) (v : value) (e : exn) :
  _pipeline st = false ->
  sscan_format_response v = Raised e ->
  await (sscan key cursor pattern count) st (Resolved v)
  = Some (Raised e, mkCell Pending [v]).
Proof.
  intros Hm He.
  pose (id_reply := (fun x => Returned x) : normalizer).
  pose proof (await_invoke id_reply (SSCAN key cursor pattern count) st
                (Resolved v) Hm) as H.
  cbn [invoke] in H. rewrite H. run_continuation. now rewrite He.
Qed.

Lemma sscan_unreadable_reply_leaves_future_pending_witness :
  await (sscan "k" 0 None None) (mkClient false [] []) (Resolved VNone)
  = Some (Raised TypeError, mkCell Pending [VNone]).
Proof.
  apply sscan_unreadable_reply_leaves_future_pending; reflexivity.
Defined.

Section Literals.

Lemma all_space_literal (s : string) :
  all_space s = true -> all_literal_chars s = true.
Proof.
  induction s as [| a s IH]; cbn [all_space all_literal_chars].
  - reflexivity.
  - intros H. apply andb_prop in H as [Ha Hs].
    unfold literal_char. rewrite Ha, (IH Hs).
    now destruct (digit_value a).
Qed.

Lemma more_digits_literal (s : string) :
  forall acc z, more_digits acc s = Some z -> all_literal_chars s = true.
Proof.
  induction s as [| a s IH]; intros acc z H.
  - reflexivity.
  - cbn [more_digits] in H. cbn [all_literal_chars].
    destruct (digit_value a) as [d |] eqn:E.
    + unfold literal_char. rewrite E. exact (IH _ _ H).
    + destruct (Ascii.eqb a "_") eqn:Eu.
      * destruct s as [| b s']; [discriminate |].
        destruct (digit_value b) eqn:Eb; [| discriminate].
        unfold literal_char. rewrite E, Eu, (IH _ _ H).
        now rewrite !orb_true_r.
      * destruct (all_space (String a s)) eqn:Es; [| discriminate].
        exact (all_space_literal _ Es).
Qed.

Lemma unsigned_literal_literal (s : string) (z : Z) :
  unsigned_literal s = Some z -> all_literal_chars s = true.
Proof.
  destruct s as [| a s]; [discriminate |].
  cbn [unsigned_literal all_literal_chars].
  destruct (digit_value a) as [d |] eqn:E; [| discriminate].
  intros H. unfold literal_char. rewrite E.
  exact (more_digits_literal _ _ _ H).
Qed.

Lemma signed_literal_cases (a : ascii) (s : string) :
  (a = "+"%char /\ signed_literal (String a s) = unsigned_literal s)
  \/ (a = "-"%char
      /\ signed_literal (String a s)
         = option_map Z.opp (unsigned_literal s))
  \/ signed_literal (String a s) = unsigned_literal (String a s).
Proof.
  destruct a as [[] [] [] [] [] [] [] []];
    first [ right; right; reflexivity
          | left; split; reflexivity
          | right; left; split; reflexivity ].
Qed.

Lemma signed_literal_literal (s : string) (z : Z) :
  signed_literal s = Some z -> all_literal_chars s = true.
Proof.
  destruct s as [| a s]; [discriminate |].
  destruct (signed_literal_cases a s) as [[-> ->] | [[-> ->] | ->]].
  - intros H. cbn [all_literal_chars].
    now rewrite (unsigned_literal_literal _ _ H).
  - intros H. cbn [all_literal_chars].
    destruct (unsigned_literal s) as [u |] eqn:E; [| discriminate].
    now rewrite (unsigned_literal_literal _ _ E).
  - apply unsigned_literal_literal.
Qed.

Lemma lstrip_literal (s : string) :
  all_literal_chars (lstrip s) = true -> all_literal_chars s = true.
Proof.
  induction s as [| a s IH]; [reflexivity |].
  cbn [lstrip]. destruct (is_space a) eqn:E; [| trivial].
  intros H. cbn [all_literal_chars]. rewrite (IH H).
  unfold literal_char. rewrite E. now destruct (digit_value a).
Qed.

(** [int] accepts a byte string only if it is made of digits, signs,
    blanks and underscores, and raises nothing but [ValueError] on the
    others. *)
Lemma int_of_bytes_stray_character (s : string) :
  all_literal_chars s = false -> int_of_bytes s = Raised ValueError.
Proof.
  intros H. unfold int_of_bytes.
  destruct (signed_literal (lstrip s)) as [z |] eqn:E; [| reflexivity].
  apply signed_literal_literal, lstrip_literal in E. congruence.
Qed.

End Literals.

(** X3: the normalizer of [sscan] raises on every reply it cannot take
    apart: [TypeError] on nil, an integer or a boolean, some exception on
    an array of fewer than two elements, and [ValueError] on a cursor
    string holding a character that is no digit, sign, blank or
    underscore. It never returns a made-up cursor for them. *)
Theorem sscan_format_response_rejects (l : list value) (s : bytes)
    (members : value) (z : Z) (b : bool) :
  (sscan_format_response VNone = Raised TypeError
   /\ sscan_format_response (VInt z) = Raised TypeError
   /\ sscan_format_response (VBool b) = Raised TypeError)
  /\ ((List.length l < 2)%nat ->
      exists e, sscan_format_response (VList l) = Raised e)
  /\ (all_literal_chars s = false ->
      sscan_format_response (VList [VBytes s; members])
      = Raised ValueError).
Proof.
  split; [repeat split |]. split.
  - intros Hl. destruct l as [| x [| y l]]; cbn [List.length] in Hl.
    + eexists. reflexivity.
    + unfold sscan_format_response. cbn [getitem nth_error].
      destruct (py_int x); eexists; reflexivity.
    + lia.
  - intros Hs. unfold sscan_format_response.
    cbn [getitem nth_error py_int].
    now rewrite (int_of_bytes_stray_character s Hs).
Qed.

Lemma sscan_format_response_rejects_witness :
  (exists e, sscan_format_response (VList [VBytes "17"]) = Raised e)
  /\ sscan_format_response (VList [VBytes "1x7"; VList []])
     = Raised ValueError.
Proof.
  pose proof (sscan_format_response_rejects [VBytes "17"] "1x7"
                (VList []) 0 true) as [_ [H1 H2]].
  split; [apply H1; simpl; lia | apply H2; reflexivity].
Defined.

(** ** Members named more than once *)

Section Repeats.

Lemma nodup_length_le (l : list bytes) :
  (List.length (nodup string_dec l) <= List.length l)%nat.
Proof.
  induction l as [| a l IH]; cbn [nodup List.length]; [lia |].
  destruct (in_dec string_dec a l); cbn [List.length]; lia.
Qed.

Lemma nodup_length_lt (l : list bytes) :
  ~ NoDup l -> (List.length (nodup string_dec l) < List.length l)%nat.
Proof.
  induction l as [| a l IH]; intros H.
  - exfalso. apply H. constructor.
  - cbn [nodup List.length]. pose proof (nodup_length_le l) as Hle.
    destruct (in_dec string_dec a l) as [Hin | Hout]; [lia |].
    cbn [List.length].
    assert (Hl : ~ NoDup l).
    { intros Hnd. apply H. now constructor. }
    specialize (IH Hl). lia.
Qed.

End Repeats.

(** X4: [sadd] and [srem] compare the reply with the number of arguments
    passed, repeats included. When a member is named more than once and
    the server counts each distinct member at most once, the reply is
    never turned into [True]: the caller gets the integer count. *)
Theorem repeated_members_never_all (members : list bytes) (M : Z) :
  ~ NoDup members ->
  0 <= M <= len (nodup string_dec members) ->
  sadd_eval_response members (VInt M) = Returned (VInt M)
  /\ srem_eval_response members (VInt M) = Returned (VInt M).
Proof.
  intros Hrep [_ HM].
  pose proof (nodup_length_lt members Hrep) as Hlt.
  assert (Hne : (M =? len members) = false).
  { apply Z.eqb_neq. unfold len in *. lia. }
  unfold sadd_eval_response, srem_eval_response, py_eq_int.
  rewrite Hne. split; reflexivity.
Qed.

Lemma repeated_members_never_all_witness :
  sadd_eval_response ["a"; "a"] (VInt 1) = Returned (VInt 1)
  /\ srem_eval_response ["a"; "a"] (VInt 1) = Returned (VInt 1).
Proof.
  apply (repeated_members_never_all ["a"; "a"] 1).
  - intros H. inversion H as [| x l Hin _]. apply Hin. now left.
  - vm_compute. split; discriminate.
Defined.

(** ** One normalizer, two modes *)

(** X5: every method that chooses between accumulator and executor
    itself normalizes alike on both ways: whenever the normalizer it
    queues in pipeline mode returns a result on a reply, the caller's
    future in direct mode is resolved with that same result on that
    reply. *)
Theorem same_result_in_both_modes (other_reply : normalizer)
    (op : operation) (st : client) (v r : value) :
  dispatches_here op = true ->
  normalize (normalizer_of other_reply op) v = Returned r ->
  (exists log,
      await (invoke other_reply op)
        (mkClient false (queued st) (submitted st)) (Resolved v)
      = Some (Returned tt, mkCell (Result r) log))
  /\ flushed (invoke other_reply op)
       (mkClient true (queued st) (submitted st)) v
     = Some (Returned r).
Proof.
  intros Hd Hn. split.
  - rewrite await_invoke by reflexivity.
    destruct op; try discriminate Hd;
      cbn [normalizer_of normalize continuation_of] in *;
      run_continuation;
      first [ injection Hn as <-; eexists; reflexivity
            | rewrite Hn; eexists; reflexivity ].
  - rewrite flushed_invoke by reflexivity. now rewrite Hn.
Qed.

Lemma same_result_in_both_modes_witness :
  let other := (fun v => Returned v) : normalizer in
  (exists log,
      await (invoke other (SADD "k" ["a"; "b"])) (mkClient false [] [])
        (Resolved (VInt 2))
      = Some (Returned tt, mkCell (Result (VBool true)) log))
  /\ flushed (invoke other (SADD "k" ["a"; "b"])) (mkClient true [] [])
       (VInt 2)
     = Some (Returned (VBool true)).
Proof.
  intros other.
  apply (same_result_in_both_modes other (SADD "k" ["a"; "b"])
           (mkClient false [] []) (VInt 2) (VBool true));
    reflexivity.
Defined.

(** ** Calls in a row *)

(** X6: calls made one after the other reach the accumulator, in
    pipeline mode, or the executor, in direct mode, in the order they are
    made, one entry for each call; no call raises, changes the mode flag,
    touches the other queue, or drops or reorders what was there. *)
Theorem calls_keep_their_order (other_reply : normalizer)
    (ops : list operation) :
  forall st,
    forallb dispatches_here ops = true ->
    invoke_all other_reply ops st
    = if _pipeline st then
        (Returned (map (fun _ => Placeholder) ops),
         mkClient true
           (queued st
            ++ map (fun op => (command_of op, normalizer_of other_reply op))
                 ops)
           (submitted st))
      else
        (Returned (map (fun _ => AsyncResult) ops),
         mkClient false (queued st)
           (submitted st
            ++ map (fun op =>
                      (command_of op, continuation_of other_reply op))
                 ops)).
Proof.
  induction ops as [| op ops IH]; intros st Hops.
  - destruct st as [[] q s]; cbn; now rewrite app_nil_r.
  - cbn [forallb] in Hops. apply andb_prop in Hops as [_ Hops].
    cbn [invoke_all]. unfold bind at 1.
    destruct (_pipeline st) eqn:E.
    + rewrite (invoke_pipeline other_reply op st E).
      unfold bind. rewrite (IH _ Hops).
      cbn [_pipeline queued submitted map ret].
      now rewrite <- app_assoc.
    + rewrite (invoke_direct other_reply op st E).
      unfold bind. rewrite (IH _ Hops).
      cbn [_pipeline queued submitted map ret].
      now rewrite <- app_assoc.
Qed.

Lemma calls_keep_their_order_witness :
  let other := (fun v => Returned v) : normalizer in
  invoke_all other [SADD "k" ["a"]; SCARD "k"; SISMEMBER "k" "a"]
    (mkClient true [] [])
  = (Returned [Placeholder; Placeholder; Placeholder],
     mkClient true
       [(["SADD"; "k"; "a"], Some (sadd_eval_response ["a"]));
        (["SCARD"; "k"], None);
        (["SISMEMBER"; "k"; "a"], None)]
       []).
Proof.
  intros other.
  apply (calls_keep_their_order other
           [SADD "k" ["a"]; SCARD "k"; SISMEMBER "k" "a"]
           (mkClient true [] [])).
  reflexivity.
Defined.

(** ** The vector names the call *)

Section Vectors.

Lemma ascii_int_injective (a b : Z) : ascii_int a = ascii_int b -> a = b.
Proof.
  intros H. pose proof (int_of_bytes_ascii_int a) as Ha.
  rewrite H, int_of_bytes_ascii_int in Ha. congruence.
Qed.

Lemma command_of_effective (op : operation) :
  command_of (effective op) = command_of op.
Proof.
  destruct op as [| | | | | | | | | k c | k c | | k cur p c | |];
    try reflexivity;
    cbn [effective command_of];
    unfold spop_command, srandmember_command, sscan_command,
      effective_count, effective_pattern.
  - destruct c as [c |]; [destruct (Z.eqb_spec c 0) as [-> | Hc] |];
      try reflexivity.
    apply Z.eqb_neq in Hc. now rewrite Hc.
  - destruct c as [c |]; [destruct (Z.eqb_spec c 0) as [-> | Hc] |];
      try reflexivity.
    apply Z.eqb_neq in Hc. now rewrite Hc.
  - destruct p as [[| a p] |];
      (destruct c as [c |]; [destruct (Z.eqb_spec c 0) as [-> | Hc] |];
       try reflexivity;
       apply Z.eqb_neq in Hc; now rewrite Hc).
Qed.

Ltac split_optional :=
  repeat match goal with
         | c : option Z |- _ => destruct c as [c |]
         | p : option bytes |- _ => destruct p as [[| ? ?] |]
         end;
  repeat match goal with
         | |- context [?c =? 0] => destruct (Z.eqb_spec c 0)
         end.

Lemma command_of_injective (op1 op2 : operation) :
  command_of op1 = command_of op2 -> effective op1 = effective op2.
Proof.
  destruct op1, op2;
    cbn [command_of effective];
    unfold sadd_command, scard_command, sdiff_command, sdiffstore_command,
      sinter_command, sinterstore_command, sismember_command,
      smembers_command, smove_command, spop_command, srandmember_command,
      srem_command, sscan_command, sunion_command, sunionstore_command,
      effective_count, effective_pattern;
    split_optional;
    cbn [app]; intros H; try discriminate H;
    injection H; intros; subst;
    repeat match goal with
           | E : ascii_int _ = ascii_int _ |- _ =>
               apply ascii_int_injective in E
           end;
    subst; solve [reflexivity | congruence].
Qed.

End Vectors.

(** X7: two calls build the same command vector exactly when they are
    calls of the same method with the same arguments, an optional count
    of 0 and an empty pattern counting as left out: the vector on the
    wire names the call. *)
Theorem vector_names_the_call (op1 op2 : operation) :
  command_of op1 = command_of op2 <-> effective op1 = effective op2.
Proof.
  split.
  - apply command_of_injective.
  - intros H.
    rewrite <- (command_of_effective op1), <- (command_of_effective op2).
    now rewrite H.
Qed.

Lemma vector_names_the_call_witness :
  effective (SSCAN "k" 0 (Some "") (Some 0)) = effective (SSCAN "k" 0 None None)
  /\ command_of (SPOP "k" (Some 0)) = command_of (SPOP "k" None).
Proof.
  split.
  - apply (proj1 (vector_names_the_call (SSCAN "k" 0 (Some "") (Some 0))
                    (SSCAN "k" 0 None None))).
    reflexivity.
  - apply (proj2 (vector_names_the_call (SPOP "k" (Some 0))
                    (SPOP "k" None))).
    reflexivity.
Defined.
